(** * Live-Frontend: location state reconciliation of [src/App.js]

    A shallow embedding of the [App] component: its five state cells, the
    snapshot fetch, the two socket handlers, the share handler with its nested
    callbacks, the derived map centre and the three-way render.

    Modelling conventions.
    - A state cell [const [x, setX] = useState(..)] is a field of [AppState];
      [setX(v)] and [setX(prev => ..)] are the actions [setX] and [updateX].
    - A handler is an [Action]: it maps the state to the next state and to the
      list of requests it issued (HTTP calls, position capture), in order.
    - What the outside world answers (a settled [fetch], the position
      callback) is an argument of the handler that receives it.
    - JSON objects are records of optional properties: a property that is
      missing reads as [None], the way it reads as [undefined] in the source.
      Response bodies are typed by the backend contract: the single-record and
      the creation endpoint answer one object, the collection endpoint an
      array of objects.  A rejected [fetch] or a body that [res.json()]
      cannot parse is the outcome [Threw].
    - Numbers are only carried around, never computed with, so a coordinate
      is the rational its literal denotes.
    - [console.log] and [console.error] are not modelled. *)

From Stdlib Require Import QArith.
From stdpp Require Import base list strings.

Open Scope string_scope.
Open Scope list_scope.

(** ** JavaScript values *)

Definition number : Type := Q.

(** [if (s)] on a string: only the empty string is falsy. *)
Definition truthy (s : string) : bool :=
  match s with
  | EmptyString => false
  | String _ _ => true
  end.

(** [if (x)] on a value that is a string, [null] or [undefined]. *)
Definition truthy_opt (x : option string) : bool :=
  match x with
  | Some s => truthy s
  | None => false
  end.

(** [`${x}`] for a string that may be [undefined]. *)
Definition interpolate (x : option string) : string :=
  match x with
  | Some s => s
  | None => "undefined"
  end.

(** A [timestamp] property: the string the backend serialises, or the [Date]
    object that [new Date()] builds for the fallback record. *)
Inductive Timestamp : Type :=
| IsoString (s : string)
| DateObject (ms : Z).

(** ** Location records, as the backend sends them *)

Module Loc.

Record t : Type := mk {
  error : option string;
  _id : option string;
  username : option string;
  latitude : option number;
  longitude : option number;
  timestamp : option Timestamp
}.

(** Replace the time stamp and nothing else. *)
Definition with_timestamp (ts : option Timestamp) (r : t) : t :=
  mk (error r) (_id r) (username r) (latitude r) (longitude r) ts.

End Loc.

(** ** The page and the component state *)

(** What the component reads from its surroundings:
    [urlParams.get('locationId')], [window.location.origin] and whether
    [navigator.geolocation] exists. *)
Record Page : Type := {
  locationId : option string;
  origin : string;
  geolocation : bool
}.

(** The guards [if (locationId)] and [if (!locationId)]. *)
Definition single_mode (p : Page) : bool := truthy_opt (locationId p).

Record AppState : Type := {
  username : string;
  locations : list Loc.t;
  shareUrl : string;
  error : string;
  isLoading : bool
}.

(** The [useState] initial values. *)
Definition initial : AppState :=
  {| username := EmptyString; locations := []; shareUrl := EmptyString;
     error := EmptyString; isLoading := true |}.

(** ** Requests and actions *)

(** The body of the creation request, [{ username, latitude, longitude }]. *)
Record ShareBody : Type := {
  body_username : string;
  body_latitude : number;
  body_longitude : number
}.

Inductive Effect : Type :=
| HttpGet (url : string)
| HttpPost (url : string) (body : ShareBody)
| GetCurrentPosition.

Definition Action : Type := AppState -> AppState * list Effect.

Definition skip : Action := fun st => (st, []).

Definition and_then (a b : Action) : Action := fun st =>
  let '(st1, t1) := a st in
  let '(st2, t2) := b st1 in
  (st2, t1 ++ t2).

Declare Scope action_scope.
Notation "a ;; b" := (and_then a b)
  (at level 100, b at level 200, right associativity) : action_scope.
Open Scope action_scope.

Definition perform (e : Effect) : Action := fun st => (st, [e]).

(** Read the state a handler closes over. *)
Definition reading (k : AppState -> Action) : Action := fun st => k st st.

Definition setUsername (v : string) : Action := fun st =>
  ({| username := v; locations := locations st; shareUrl := shareUrl st;
      error := error st; isLoading := isLoading st |}, []).

Definition updateLocations (f : list Loc.t -> list Loc.t) : Action := fun st =>
  ({| username := username st; locations := f (locations st);
      shareUrl := shareUrl st; error := error st;
      isLoading := isLoading st |}, []).

Definition setLocations (v : list Loc.t) : Action :=
  updateLocations (fun _ => v).

Definition setShareUrl (v : string) : Action := fun st =>
  ({| username := username st; locations := locations st; shareUrl := v;
      error := error st; isLoading := isLoading st |}, []).

Definition setError (v : string) : Action := fun st =>
  ({| username := username st; locations := locations st;
      shareUrl := shareUrl st; error := v; isLoading := isLoading st |}, []).

Definition setIsLoading (v : bool) : Action := fun st =>
  ({| username := username st; locations := locations st;
      shareUrl := shareUrl st; error := error st; isLoading := v |}, []).

(** ** The snapshot fetch *)

(** How an awaited promise chain settles. *)
Inductive Settled (A : Type) : Type :=
| Threw
| Resolved (data : A).
Arguments Threw {A}.
Arguments Resolved {A} data.

Definition backend : string := "http://localhost:5000".

Definition default_latitude : number := 51.505%Q.
Definition default_longitude : number := (-0.09)%Q.

(** The record of the [catch] branch; [now] is what [new Date()] reads. *)
Definition fallback (now : Z) : Loc.t :=
  {| Loc.error := None;
     Loc._id := Some "fallback";
     Loc.username := Some "Fallback User";
     Loc.latitude := Some default_latitude;
     Loc.longitude := Some default_longitude;
     Loc.timestamp := Some (DateObject now) |}.

Definition fetch_failed : string :=
  "Failed to fetch locations. Is the backend running at http://localhost:5000?".

Definition fetchLocations_catch (now : Z) : Action :=
  setError fetch_failed ;; setLocations [fallback now].

(** [fetchLocations]: [one] is how the single-record request settles, [all]
    how the collection request settles; only the request of the current mode
    is issued.  The [finally] block runs on every path. *)
Definition fetchLocations (p : Page) (one : Settled Loc.t)
    (all : Settled (list Loc.t)) (now : Z) : Action :=
  (if single_mode p then
     perform (HttpGet (backend +:+ "/api/locations/" +:+ interpolate (locationId p))) ;;
     match one with
     | Resolved data =>
         match Loc.error data with
         | Some msg =>
             if truthy msg then setError msg ;; setLocations []
             else setLocations [data]
         | None => setLocations [data]
         end
     | Threw => fetchLocations_catch now
     end
   else
     perform (HttpGet (backend +:+ "/api/locations")) ;;
     match all with
     | Resolved data => setLocations data
     | Threw => fetchLocations_catch now
     end) ;;
  setIsLoading false.

(** ** The socket handlers *)

(** [socket.on('newLocation', ..)] *)
Definition onNewLocation (p : Page) (location : Loc.t) : Action :=
  if negb (single_mode p) then updateLocations (fun prev => prev ++ [location])
  else skip.

Definition connect_failed : string :=
  "Cannot connect to backend. Please ensure the server is running on http://localhost:5000".

(** [socket.on('connect_error', ..)] *)
Definition onConnectError : Action := setError connect_failed.

(** ** Sharing *)

(** What [getCurrentPosition] calls back with. *)
Inductive Capture : Type :=
| Position (latitude longitude : number)
| PositionError (message : string).

(** The [.then(data => ..)] callback of the creation request. *)
Definition shareLocation_then (p : Page) (data : Loc.t) : Action :=
  let shared : Action :=
    let url := origin p +:+ "?locationId=" +:+ interpolate (Loc._id data) in
    setShareUrl url ;;
    (if negb (single_mode p) then updateLocations (fun prev => prev ++ [data])
     else skip) ;;
    setError EmptyString in
  match Loc.error data with
  | Some msg => if truthy msg then setError msg else shared
  | None => shared
  end.

(** The [.catch(err => ..)] callback of the creation request. *)
Definition shareLocation_catch : Action :=
  setError "Error sharing location. Is the backend running?".

(** The success callback of the position capture; [name] is the [username]
    the handler closed over. *)
Definition shareLocation_position (p : Page) (name : string)
    (latitude longitude : number) (post : ShareBody -> Settled Loc.t) : Action :=
  let body := {| body_username := name; body_latitude := latitude;
                 body_longitude := longitude |} in
  perform (HttpPost (backend +:+ "/api/locations") body) ;;
  match post body with
  | Resolved data => shareLocation_then p data
  | Threw => shareLocation_catch
  end.

(** The error callback of the position capture. *)
Definition shareLocation_denied (message : string) : Action :=
  setError ("Error getting location: " +:+ message).

(** [shareLocation], with the callbacks it registers run to the end. *)
Definition shareLocation (p : Page) (capture : Capture)
    (post : ShareBody -> Settled Loc.t) : Action :=
  reading (fun st =>
    if negb (truthy (username st)) then setError "Please enter a username"
    else if negb (geolocation p) then
      setError "Geolocation is not supported by this browser."
    else
      perform GetCurrentPosition ;;
      match capture with
      | Position latitude longitude =>
          shareLocation_position p (username st) latitude longitude post
      | PositionError message => shareLocation_denied message
      end).

(** ** The derived map centre and the render *)

Definition Center : Type := option number * option number.

(** [mapCenter]; the index [length - 1] is in range whenever the guard
    holds, so the lookup always finds the record. *)
Definition mapCenter (locations : list Loc.t) : Center :=
  if (0 <? length locations)%nat then
    let last := locations !! (length locations - 1)%nat in
    (last ≫= Loc.latitude, last ≫= Loc.longitude)
  else (Some default_latitude, Some default_longitude).

Record Marker : Type := {
  marker_key : option string;
  marker_position : Center;
  marker_popup : option string
}.

Definition marker (loc : Loc.t) : Marker :=
  {| marker_key := Loc._id loc;
     marker_position := (Loc.latitude loc, Loc.longitude loc);
     marker_popup := Loc.username loc |}.

(** What the component returns: the loading page, the error page, or the full
    page with the name input (when shown), the share link (when shown), the
    map centre, the markers and the list entries. *)
Inductive View : Type :=
| LoadingView
| ErrorView (message : string)
| MainView (input : option string) (link : option string) (center : Center)
    (markers : list Marker) (entries : list Loc.t).

Definition render (p : Page) (st : AppState) : View :=
  if isLoading st then LoadingView
  else if truthy (error st) then ErrorView (error st)
  else
    MainView
      (if negb (single_mode p) then Some (username st) else None)
      (if truthy (shareUrl st) && negb (single_mode p) then Some (shareUrl st)
       else None)
      (mapCenter (locations st))
      (marker <$> locations st)
      (locations st).

(** The records a view puts on the map and in the list. *)
Definition shown (v : View) : option (list Marker * list Loc.t) :=
  match v with
  | MainView _ _ _ markers entries => Some (markers, entries)
  | _ => None
  end.

(** ** Running handlers *)

Definition state_after (a : Action) (st : AppState) : AppState := fst (a st).
Definition requests (a : Action) (st : AppState) : list Effect := snd (a st).

(** What can happen to a mounted component.  [Fetched] is the snapshot fetch
    settling, [ShareClicked] a click on the share button together with the
    answers its callbacks receive. *)
Inductive Event : Type :=
| Fetched (one : Settled Loc.t) (all : Settled (list Loc.t)) (now : Z)
| NewLocation (location : Loc.t)
| ConnectError
| Typed (value : string)
| ShareClicked (capture : Capture) (post : ShareBody -> Settled Loc.t).

Definition handle (p : Page) (ev : Event) : Action :=
  match ev with
  | Fetched one all now => fetchLocations p one all now
  | NewLocation location => onNewLocation p location
  | ConnectError => onConnectError
  | Typed value => setUsername value
  | ShareClicked capture post => shareLocation p capture post
  end.

Fixpoint run (p : Page) (evs : list Event) : Action :=
  match evs with
  | [] => skip
  | ev :: rest => handle p ev ;; run p rest
  end.

Definition is_newLocation (ev : Event) : bool :=
  match ev with
  | NewLocation _ => true
  | _ => false
  end.

(** The two places that add a record to the collection: the [newLocation]
    handler and the [.then] callback of a share. *)
Inductive Upsert : Type :=
| FromStream (location : Loc.t)
| FromShare (data : Loc.t).

Definition record_of (u : Upsert) : Loc.t :=
  match u with
  | FromStream location => location
  | FromShare data => data
  end.

Definition upsert (p : Page) (u : Upsert) : Action :=
  match u with
  | FromStream location => onNewLocation p location
  | FromShare data => shareLocation_then p data
  end.

(** A share adds its record only when the backend did not report an error. *)
Definition succeeded (u : Upsert) : bool :=
  match u with
  | FromStream _ => true
  | FromShare data => negb (truthy_opt (Loc.error data))
  end.

Fixpoint upserts (p : Page) (us : list Upsert) : Action :=
  match us with
  | [] => skip
  | u :: rest => upsert p u ;; upserts p rest
  end.

(** How many records of a collection carry the id [i]. *)
Definition occurrences (i : option string) (l : list Loc.t) : nat :=
  length (filter (fun r => Loc._id r = i) l).

(** The ways a share attempt fails: no name, no capability, the capture
    fails, the creation request throws, or it resolves to a body with a
    non-empty [error]. *)
Definition share_fails (p : Page) (capture : Capture)
    (post : ShareBody -> Settled Loc.t) (st : AppState) : Prop :=
  truthy (username st) = false
  \/ geolocation p = false
  \/ (exists message, capture = PositionError message)
  \/ (exists lat lng,
        capture = Position lat lng
        /\ let body := {| body_username := username st; body_latitude := lat;
                          body_longitude := lng |} in
           post body = Threw
           \/ exists data, post body = Resolved data
                           /\ truthy_opt (Loc.error data) = true).

(** ** The map-centre effect and the clipboard *)

(** A call on the Leaflet map. *)
Inductive MapCall : Type :=
| SetView (center : Center) (zoom : nat).

(** The effect of [UpdateMapCenter({ center })]: [if (center)] guards the
    call; [None] is a [center] prop that is [undefined] or [null] (an array
    is always truthy). *)
Definition UpdateMapCenter (center : option Center) : list MapCall :=
  match center with
  | Some c => [SetView c 13]
  | None => []
  end.

Inductive BrowserCall : Type :=
| ClipboardWrite (text : string)
| Alert (message : string).

(** [copyToClipboard]: [clipboard] is [None] when [navigator.clipboard] is
    undefined, so that the call throws out of the handler (the result is
    [None]: no state is written), and otherwise tells how the promise of
    [writeText] settles. *)
Definition copyToClipboard (clipboard : option (Settled unit))
    (st : AppState) : option (AppState * list BrowserCall) :=
  match clipboard with
  | None => None
  | Some written =>
      Some
        match written with
        | Resolved _ =>
            (st, [ClipboardWrite (shareUrl st);
                  Alert "URL copied to clipboard!"])
        | Threw =>
            (state_after (setError "Failed to copy URL") st,
             [ClipboardWrite (shareUrl st)])
        end
  end.

(** ** Classifying events and requests *)

Definition is_Fetched (ev : Event) : bool :=
  match ev with
  | Fetched _ _ _ => true
  | _ => false
  end.

Definition is_ShareClicked (ev : Event) : bool :=
  match ev with
  | ShareClicked _ _ => true
  | _ => false
  end.

Definition is_HttpGet (e : Effect) : bool :=
  match e with
  | HttpGet _ => true
  | _ => false
  end.

(** The URL the snapshot fetch asks for. *)
Definition snapshot_url (p : Page) : string :=
  if single_mode p then
    backend +:+ "/api/locations/" +:+ interpolate (locationId p)
  else backend +:+ "/api/locations".


(** An action keeps the state property [P]. *)
Definition maintains (P : AppState -> Prop) (a : Action) : Prop :=
  forall st, P st -> P (state_after a st).

(** ** Sample data *)

Module Sample.

Definition all_page : Page :=
  {| locationId := None; origin := "http://localhost:3000";
     geolocation := true |}.

Definition single_page : Page :=
  {| locationId := Some "abc"; origin := "http://localhost:3000";
     geolocation := true |}.

Definition record (id name : string) (lat lng : number) : Loc.t :=
  {| Loc.error := None; Loc._id := Some id; Loc.username := Some name;
     Loc.latitude := Some lat; Loc.longitude := Some lng;
     Loc.timestamp := Some (IsoString "2024-01-01T00:00:00.000Z") |}.

Definition a : Loc.t := record "a" "ann" 1%Q 2%Q.
Definition a' : Loc.t := record "a" "ann" 9%Q 9%Q.
Definition b : Loc.t := record "b" "bob" 3%Q 4%Q.
Definition xyz : Loc.t := record "xyz" "zoe" 5%Q 6%Q.

Definition not_found : Loc.t :=
  {| Loc.error := Some "not found"; Loc._id := None; Loc.username := None;
     Loc.latitude := None; Loc.longitude := None; Loc.timestamp := None |}.

(** The state once the snapshot [l] is on screen. *)
Definition loaded (l : list Loc.t) : AppState :=
  {| username := "zoe"; locations := l; shareUrl := EmptyString;
     error := EmptyString; isLoading := false |}.

(** A page whose address carries an empty [locationId]. *)
Definition empty_id_page : Page :=
  {| locationId := Some EmptyString; origin := "http://localhost:3000";
     geolocation := true |}.

(** A page in a browser without the position capability. *)
Definition no_geo_page : Page :=
  {| locationId := None; origin := "http://localhost:3000";
     geolocation := false |}.

(** A created record that lacks its [_id]. *)
Definition anonymous : Loc.t :=
  {| Loc.error := None; Loc._id := None; Loc.username := Some "zoe";
     Loc.latitude := Some 5%Q; Loc.longitude := Some 6%Q;
     Loc.timestamp := None |}.

End Sample.

(** ** Basic facts about actions *)

Section ActionFacts.

Context (p : Page).

Lemma state_after_and_then (a b : Action) (st : AppState) :
  state_after (a ;; b) st = state_after b (state_after a st).
Proof.
  unfold state_after, and_then.
  destruct (a st) as [st1 t1]; simpl. by destruct (b st1).
Qed.

Lemma requests_and_then (a b : Action) (st : AppState) :
  requests (a ;; b) st = requests a st ++ requests b (state_after a st).
Proof.
  unfold requests, state_after, and_then.
  destruct (a st) as [st1 t1]; simpl. by destruct (b st1).
Qed.

Lemma onNewLocation_all (location : Loc.t) (st : AppState) :
  single_mode p = false ->
  locations (state_after (onNewLocation p location) st)
  = locations st ++ [location].
Proof. intros Hmode. unfold onNewLocation. by rewrite Hmode. Qed.

Lemma onNewLocation_single (location : Loc.t) (st : AppState) :
  single_mode p = true -> onNewLocation p location st = (st, []).
Proof. intros Hmode. unfold onNewLocation. by rewrite Hmode. Qed.

Lemma shareLocation_then_locations (data : Loc.t) (st : AppState) :
  truthy_opt (Loc.error data) = false ->
  locations (state_after (shareLocation_then p data) st)
  = locations st ++ (if single_mode p then [] else [data]).
Proof.
  intros Hok. unfold shareLocation_then.
  destruct (Loc.error data) as [msg |]; simpl in Hok; rewrite ?Hok;
    destruct (single_mode p); simpl; by rewrite ?app_nil_r.
Qed.

Lemma upsert_locations (u : Upsert) (st : AppState) :
  succeeded u = true ->
  locations (state_after (upsert p u) st)
  = locations st ++ (if single_mode p then [] else [record_of u]).
Proof.
  destruct u as [location | data]; simpl; intros Hok.
  - unfold onNewLocation.
    destruct (single_mode p); simpl; [by rewrite app_nil_r | done].
  - apply shareLocation_then_locations. by destruct (truthy_opt _).
Qed.

Lemma upserts_locations (us : list Upsert) (st : AppState) :
  forallb succeeded us = true ->
  locations (state_after (upserts p us) st)
  = locations st ++ (if single_mode p then [] else record_of <$> us).
Proof.
  revert st. induction us as [| u us IH]; intros st Hok.
  - simpl. destruct (single_mode p); by rewrite app_nil_r.
  - simpl in Hok. apply andb_prop in Hok as [Hu Hus].
    simpl upserts. rewrite state_after_and_then, IH by done.
    rewrite upsert_locations by done.
    destruct (single_mode p); simpl; [by rewrite !app_nil_r |].
    by rewrite <- app_assoc.
Qed.

End ActionFacts.

(** ** The collection under upserts *)

Lemma occurrences_cons (i : option string) (r : Loc.t) (l : list Loc.t) :
  occurrences i (r :: l)
  = ((if decide (Loc._id r = i) then 1 else 0) + occurrences i l)%nat.
Proof.
  unfold occurrences. rewrite filter_cons.
  by destruct (decide (Loc._id r = i)).
Qed.

Lemma occurrences_absent (i : option string) (l : list Loc.t) :
  i ∉ Loc._id <$> l -> occurrences i l = 0%nat.
Proof.
  induction l as [| r l IH]; intros Hnot; [done |].
  rewrite occurrences_cons. rewrite fmap_cons, not_elem_of_cons in Hnot.
  destruct Hnot as [Hne Hnot]. rewrite IH by done.
  destruct (decide (Loc._id r = i)); [congruence | done].
Qed.

Lemma occurrences_unique (l : list Loc.t) (r : Loc.t) :
  NoDup (Loc._id <$> l) -> r ∈ l -> occurrences (Loc._id r) l = 1%nat.
Proof.
  induction l as [| x l IH]; intros Hnodup Hin.
  - by apply elem_of_nil in Hin.
  - rewrite fmap_cons in Hnodup. apply NoDup_cons in Hnodup as [Hx Hl].
    rewrite occurrences_cons. apply elem_of_cons in Hin as [-> | Hin].
    + rewrite decide_True by done. by rewrite occurrences_absent.
    + rewrite IH by done. rewrite decide_False; [done |].
      intros Heq. apply Hx. rewrite Heq. by apply list_elem_of_fmap_2.
Qed.

(** C1, the claim as it stands fails: two stream events with the same id
    leave two records with that id in the collection, the second one behind
    the first instead of in its place. *)
Lemma upserts_keep_duplicate_ids :
  let result :=
    locations (state_after
      (upserts Sample.all_page [FromStream Sample.a; FromStream Sample.a'])
      (Sample.loaded [])) in
  result = [Sample.a; Sample.a']
  /\ occurrences (Some "a") result = 2%nat
  /\ ~ NoDup (Loc._id <$> result).
Proof.
  repeat split.
  intros Hnodup. simpl in Hnodup.
  apply NoDup_cons in Hnodup as [Hnot _]. apply Hnot. by left.
Qed.

(** C1, amended: every upsert (a stream event or a successful share) appends
    its record at the end of the collection without comparing ids, and does
    nothing in single-location mode.  After any sequence the collection is the
    initial collection followed by the arriving records in arrival order, so
    every earlier record keeps its position; the collection holds exactly one
    record per id whenever no id repeats among the initial and the arriving
    records. *)
Theorem upserts_append_in_order (p : Page) (us : list Upsert) (st : AppState) :
  forallb succeeded us = true ->
  let result := locations (state_after (upserts p us) st) in
  result = locations st ++ (if single_mode p then [] else record_of <$> us)
  /\ (forall i r, locations st !! i = Some r -> result !! i = Some r)
  /\ (NoDup (Loc._id <$> (locations st ++ (record_of <$> us))) ->
      single_mode p = false ->
      forall r, r ∈ result -> occurrences (Loc._id r) result = 1%nat).
Proof.
  intros Hok result.
  assert (Hresult : result
    = locations st ++ (if single_mode p then [] else record_of <$> us))
    by by apply upserts_locations.
  split; [done |]. split.
  - intros i r Hi. rewrite Hresult. by apply lookup_app_l_Some.
  - intros Hnodup Hmode r Hin. rewrite Hmode in Hresult.
    apply occurrences_unique; [| done]. by rewrite Hresult.
Qed.

Lemma upserts_append_in_order_witness :
  forallb succeeded [FromStream Sample.b; FromShare Sample.xyz] = true
  /\ locations (state_after
       (upserts Sample.all_page [FromStream Sample.b; FromShare Sample.xyz])
       (Sample.loaded [Sample.a]))
     = [Sample.a; Sample.b; Sample.xyz].
Proof.
  split; [reflexivity |].
  exact (proj1 (upserts_append_in_order Sample.all_page
    [FromStream Sample.b; FromShare Sample.xyz] (Sample.loaded [Sample.a])
    eq_refl)).
Defined.

(** ** The snapshot fetch *)

Lemma fetchLocations_catch_state (now : Z) (st : AppState) :
  state_after (fetchLocations_catch now ;; setIsLoading false) st
  = {| username := username st; locations := [fallback now];
       shareUrl := shareUrl st; error := fetch_failed; isLoading := false |}.
Proof. reflexivity. Qed.

(** C2: when the snapshot request of the current mode throws (the network is
    unreachable, the body is not JSON, the transport timed out), the
    collection is exactly the one placeholder record, whose coordinates are
    51.505 and -0.09, and the error message is set and is what the page
    renders. *)
Theorem fetch_threw_gives_fallback (p : Page) (one : Settled Loc.t)
    (all : Settled (list Loc.t)) (now : Z) (st : AppState) :
  (single_mode p = true -> one = Threw) ->
  (single_mode p = false -> all = Threw) ->
  let st' := state_after (fetchLocations p one all now) st in
  locations st' = [fallback now]
  /\ Loc.latitude <$> locations st' = [Some 51.505%Q]
  /\ Loc.longitude <$> locations st' = [Some (-0.09)%Q]
  /\ error st' = fetch_failed
  /\ render p st' = ErrorView fetch_failed.
Proof.
  intros Hone Hall st'.
  assert (Hst : st' = state_after
    (fetchLocations_catch now ;; setIsLoading false) st).
  { subst st'. unfold fetchLocations.
    destruct (single_mode p).
    - by rewrite Hone.
    - by rewrite Hall. }
  rewrite Hst, fetchLocations_catch_state. by repeat split.
Qed.

Lemma fetch_threw_gives_fallback_witness :
  (single_mode Sample.all_page = true -> Resolved Sample.a = Threw)
  /\ (single_mode Sample.all_page = false -> @Threw (list Loc.t) = Threw)
  /\ locations (state_after
       (fetchLocations Sample.all_page (Resolved Sample.a) Threw 1700000000000)
       initial)
     = [fallback 1700000000000].
Proof.
  assert (H1 : single_mode Sample.all_page = true -> Resolved Sample.a = Threw)
    by (simpl; discriminate).
  assert (H2 : single_mode Sample.all_page = false
               -> @Threw (list Loc.t) = Threw) by reflexivity.
  split; [exact H1 |]. split; [exact H2 |].
  exact (proj1 (fetch_threw_gives_fallback Sample.all_page
    (Resolved Sample.a) Threw 1700000000000 initial H1 H2)).
Defined.

(** C3: when the single-record request resolves to a body whose [error]
    property is a non-empty string (the backend's "not found"), the collection
    is set empty, that string becomes the error message and is what the page
    renders, and the placeholder record is not in the collection. *)
Theorem fetch_not_found_empties (p : Page) (data : Loc.t) (msg : string)
    (all : Settled (list Loc.t)) (now : Z) (st : AppState) :
  single_mode p = true ->
  Loc.error data = Some msg ->
  truthy msg = true ->
  let st' := state_after (fetchLocations p (Resolved data) all now) st in
  locations st' = []
  /\ error st' = msg
  /\ render p st' = ErrorView msg
  /\ fallback now ∉ locations st'.
Proof.
  intros Hmode Herr Htruthy st'. subst st'.
  unfold fetchLocations. rewrite Hmode, Herr, Htruthy.
  unfold render; simpl. rewrite Htruthy.
  repeat split. apply not_elem_of_nil.
Qed.

Lemma fetch_not_found_empties_witness :
  single_mode Sample.single_page = true
  /\ Loc.error Sample.not_found = Some "not found"
  /\ truthy "not found" = true
  /\ locations (state_after
       (fetchLocations Sample.single_page (Resolved Sample.not_found)
          Threw 0) initial) = []
  /\ error (state_after
       (fetchLocations Sample.single_page (Resolved Sample.not_found)
          Threw 0) initial) = "not found".
Proof.
  pose proof (fetch_not_found_empties Sample.single_page Sample.not_found
    "not found" Threw 0 initial eq_refl eq_refl eq_refl) as [Hloc [Herr _]].
  do 3 (split; [reflexivity |]).
  split; [exact Hloc | exact Herr].
Defined.

(** ** The stream in single-location mode *)

(** C4: in single-location mode a [newLocation] event changes nothing: the
    handler returns the state it was given (the collection included) and
    issues no request, whatever the state and the record; and over a whole
    run, deleting the [newLocation] events from the trace leaves the final
    state the same. *)
Theorem newLocation_ignored_in_single_mode (p : Page) :
  single_mode p = true ->
  (forall location st,
     state_after (onNewLocation p location) st = st
     /\ locations (state_after (handle p (NewLocation location)) st)
        = locations st
     /\ requests (onNewLocation p location) st = [])
  /\ (forall evs st,
        state_after (run p evs) st
        = state_after (run p (filter (fun ev => is_newLocation ev = false) evs))
            st).
Proof.
  intros Hmode. split.
  - intros location st. simpl. unfold state_after, requests.
    by rewrite onNewLocation_single.
  - intros evs. induction evs as [| ev evs IH]; intros st; [done |].
    rewrite filter_cons. destruct ev; simpl;
      rewrite ?state_after_and_then; try (by rewrite IH).
    unfold state_after at 2. by rewrite onNewLocation_single.
Qed.

Lemma newLocation_ignored_in_single_mode_witness :
  single_mode Sample.single_page = true
  /\ state_after (onNewLocation Sample.single_page Sample.b)
       (Sample.loaded [Sample.a]) = Sample.loaded [Sample.a].
Proof.
  split; [reflexivity |].
  exact (proj1 (proj1 (newLocation_ignored_in_single_mode Sample.single_page
    eq_refl) Sample.b (Sample.loaded [Sample.a]))).
Defined.

(** ** Sharing *)

(** The state a successful [.then] callback leaves, at any state it finds. *)
Lemma shareLocation_then_ok (p : Page) (data : Loc.t) (st : AppState) :
  truthy_opt (Loc.error data) = false ->
  shareLocation_then p data st
  = ({| username := username st;
        locations := locations st ++ (if single_mode p then [] else [data]);
        shareUrl := origin p +:+ "?locationId=" +:+ interpolate (Loc._id data);
        error := EmptyString;
        isLoading := isLoading st |}, []).
Proof.
  intros Hok. unfold shareLocation_then.
  destruct (Loc.error data) as [msg |]; simpl in Hok; rewrite ?Hok;
    destruct (single_mode p); simpl; by rewrite ?app_nil_r.
Qed.

Lemma shareLocation_started (p : Page) (capture : Capture)
    (post : ShareBody -> Settled Loc.t) (st : AppState) :
  truthy (username st) = true ->
  geolocation p = true ->
  shareLocation p capture post st
  = (perform GetCurrentPosition ;;
     match capture with
     | Position latitude longitude =>
         shareLocation_position p (username st) latitude longitude post
     | PositionError message => shareLocation_denied message
     end) st.
Proof.
  intros Hname Hgeo. unfold shareLocation, reading. by rewrite Hname, Hgeo.
Qed.

Lemma shareLocation_position_resolved (p : Page) (name : string)
    (lat lng : number) (post : ShareBody -> Settled Loc.t) (st : AppState) :
  shareLocation_position p name lat lng post st
  = (perform (HttpPost (backend +:+ "/api/locations")
       {| body_username := name; body_latitude := lat;
          body_longitude := lng |}) ;;
     match post {| body_username := name; body_latitude := lat;
                   body_longitude := lng |} with
     | Resolved data => shareLocation_then p data
     | Threw => shareLocation_catch
     end) st.
Proof. reflexivity. Qed.


Lemma shareLocation_resolved (p : Page) (st : AppState) (lat lng : number)
    (post : ShareBody -> Settled Loc.t) (data : Loc.t) :
  truthy (username st) = true ->
  geolocation p = true ->
  post {| body_username := username st; body_latitude := lat;
          body_longitude := lng |} = Resolved data ->
  state_after (shareLocation p (Position lat lng) post) st
  = state_after (shareLocation_then p data) st.
Proof.
  intros Hname Hgeo Hpost.
  transitivity (state_after (perform GetCurrentPosition ;;
    shareLocation_position p (username st) lat lng post) st).
  { unfold state_after. by rewrite shareLocation_started. }
  unfold shareLocation_position.
  by rewrite !state_after_and_then, Hpost.
Qed.

(** C5: when a share goes through (a name was entered, the position was
    captured, the creation request resolved to a record without [error]) and
    the backend assigned the id [id], the share link is
    [<origin>?locationId=<id>]; in all-locations mode the collection gains
    the returned record at its end, in single-location mode it is left as it
    was.  The [.then] callback does the same at whatever state it finds when
    the response arrives. *)
Theorem share_success_link_and_store (p : Page) (st : AppState)
    (lat lng : number) (post : ShareBody -> Settled Loc.t)
    (data : Loc.t) (id : string) :
  truthy (username st) = true ->
  geolocation p = true ->
  post {| body_username := username st; body_latitude := lat;
          body_longitude := lng |} = Resolved data ->
  truthy_opt (Loc.error data) = false ->
  Loc._id data = Some id ->
  let st' := state_after (shareLocation p (Position lat lng) post) st in
  shareUrl st' = origin p +:+ "?locationId=" +:+ id
  /\ (single_mode p = false -> locations st' = locations st ++ [data])
  /\ (single_mode p = true -> locations st' = locations st)
  /\ (forall st0,
        let st1 := state_after (shareLocation_then p data) st0 in
        shareUrl st1 = origin p +:+ "?locationId=" +:+ id
        /\ locations st1
           = locations st0 ++ (if single_mode p then [] else [data])).
Proof.
  intros Hname Hgeo Hpost Hok Hid st'. subst st'.
  rewrite (shareLocation_resolved p st lat lng post data) by done.
  assert (Hthen : forall st0,
    shareUrl (state_after (shareLocation_then p data) st0)
    = origin p +:+ "?locationId=" +:+ id
    /\ locations (state_after (shareLocation_then p data) st0)
       = locations st0 ++ (if single_mode p then [] else [data])).
  { intros st0. unfold state_after. rewrite shareLocation_then_ok by done.
    simpl. by rewrite Hid. }
  destruct (Hthen st) as [Hurl Hloc].
  split; [done |]. split; [| split]; [| | done].
  - intros Hmode. by rewrite Hloc, Hmode.
  - intros Hmode. by rewrite Hloc, Hmode, app_nil_r.
Qed.

Lemma share_success_link_and_store_witness :
  let st := Sample.loaded [Sample.a] in
  let post := fun _ : ShareBody => Resolved Sample.xyz in
  let st' :=
    state_after (shareLocation Sample.all_page (Position 5%Q 6%Q) post) st in
  truthy (username st) = true
  /\ geolocation Sample.all_page = true
  /\ truthy_opt (Loc.error Sample.xyz) = false
  /\ Loc._id Sample.xyz = Some "xyz"
  /\ shareUrl st' = "http://localhost:3000?locationId=xyz"
  /\ locations st' = [Sample.a; Sample.xyz].
Proof.
  pose proof (share_success_link_and_store Sample.all_page
    (Sample.loaded [Sample.a]) 5%Q 6%Q (fun _ => Resolved Sample.xyz)
    Sample.xyz "xyz" eq_refl eq_refl eq_refl eq_refl eq_refl) as [Hurl [Hall _]].
  intros st post st'.
  do 4 (split; [reflexivity |]).
  split; [exact Hurl | exact (Hall eq_refl)].
Defined.

(** C8: when the name is empty or the browser has no position capability,
    the handler sets the matching message and stops: it issues no request at
    all (no position capture, no call to the backend), whatever the capture
    and the backend would have answered, and leaves the rest of the state as
    it was. *)
Theorem share_precondition_violation (p : Page) (capture : Capture)
    (post : ShareBody -> Settled Loc.t) (st : AppState) :
  truthy (username st) = false \/ geolocation p = false ->
  requests (shareLocation p capture post) st = []
  /\ state_after (shareLocation p capture post) st
     = state_after
         (setError (if truthy (username st) then
                      "Geolocation is not supported by this browser."
                    else "Please enter a username")) st.
Proof.
  intros Hpre. unfold requests, state_after, shareLocation, reading.
  cbv beta.
  destruct (truthy (username st)) eqn:Hname; simpl negb; cbv iota; [| done].
  destruct Hpre as [Hpre | Hgeo]; [done |]. by rewrite Hgeo.
Qed.

Lemma share_precondition_violation_witness :
  (truthy (username initial) = false \/ geolocation Sample.all_page = false)
  /\ requests (shareLocation Sample.all_page (Position 5%Q 6%Q)
       (fun _ => Resolved Sample.xyz)) initial = []
  /\ error (state_after (shareLocation Sample.all_page (Position 5%Q 6%Q)
       (fun _ => Resolved Sample.xyz)) initial) = "Please enter a username".
Proof.
  assert (Hpre : truthy (username initial) = false
                 \/ geolocation Sample.all_page = false) by (left; reflexivity).
  pose proof (share_precondition_violation Sample.all_page (Position 5%Q 6%Q)
    (fun _ => Resolved Sample.xyz) initial Hpre) as [Hreq Hst].
  split; [exact Hpre |]. split; [exact Hreq |]. by rewrite Hst.
Defined.

(** C10: on every failure path of a share attempt the only state cell that
    is written is the error message: the state afterwards is the state before
    with [setError message] applied, for a non-empty [message], so the share
    link and the collection (and the name and the loading flag) are as they
    were. *)
Theorem share_failure_only_sets_error (p : Page) (capture : Capture)
    (post : ShareBody -> Settled Loc.t) (st : AppState) :
  share_fails p capture post st ->
  let st' := state_after (shareLocation p capture post) st in
  shareUrl st' = shareUrl st
  /\ locations st' = locations st
  /\ exists message,
       truthy message = true /\ st' = state_after (setError message) st.
Proof.
  intros Hfail st'.
  assert (Hset : exists message,
    truthy message = true /\ st' = state_after (setError message) st).
  { subst st'.
    destruct (truthy (username st)) eqn:Hname.
    2: { eexists. split; [| unfold state_after, shareLocation, reading;
           cbv beta; by rewrite Hname]. done. }
    destruct (geolocation p) eqn:Hgeo.
    2: { eexists. split; [| unfold state_after, shareLocation, reading;
           cbv beta; by rewrite Hname, Hgeo]. done. }
    destruct Hfail as [H | [H | [[message ->] | (lat & lng & -> & H)]]];
      [congruence | congruence | |].
    - exists ("Error getting location: " +:+ message). split; [done |].
      unfold state_after. by rewrite shareLocation_started.
    - simpl in H. destruct H as [Hpost | (data & Hpost & Herr)].
      + eexists. split; [| unfold state_after;
          rewrite shareLocation_started by done;
          unfold and_then, perform, shareLocation_position;
          by rewrite Hpost]. done.
      + rewrite (shareLocation_resolved p st lat lng post data) by done.
        unfold shareLocation_then.
        destruct (Loc.error data) as [msg |]; simpl in Herr; [| done].
        rewrite Herr. by exists msg. }
  destruct Hset as (message & Htruthy & ->). eauto.
Qed.

(** The three failing callbacks, each at whatever state it finds. *)
Lemma share_callbacks_only_set_error (p : Page) (st : AppState) :
  (forall message,
     state_after (shareLocation_denied message) st
     = state_after (setError ("Error getting location: " +:+ message)) st)
  /\ state_after shareLocation_catch st
     = state_after
         (setError "Error sharing location. Is the backend running?") st
  /\ (forall data msg,
        Loc.error data = Some msg -> truthy msg = true ->
        state_after (shareLocation_then p data) st
        = state_after (setError msg) st).
Proof.
  split; [done |]. split; [done |].
  intros data msg Herr Htruthy. unfold shareLocation_then.
  by rewrite Herr, Htruthy.
Qed.

Lemma share_failure_only_sets_error_witness :
  let st := Sample.loaded [Sample.a] in
  let post := fun _ : ShareBody => Resolved Sample.not_found in
  share_fails Sample.all_page (Position 5%Q 6%Q) post st
  /\ locations (state_after (shareLocation Sample.all_page (Position 5%Q 6%Q) post)
       st) = [Sample.a]
  /\ shareUrl (state_after (shareLocation Sample.all_page (Position 5%Q 6%Q) post)
       st) = EmptyString.
Proof.
  assert (Hfail : share_fails Sample.all_page (Position 5%Q 6%Q)
            (fun _ => Resolved Sample.not_found) (Sample.loaded [Sample.a])).
  { right. right. right. exists 5%Q, 6%Q. split; [reflexivity |].
    right. exists Sample.not_found. split; reflexivity. }
  pose proof (share_failure_only_sets_error Sample.all_page (Position 5%Q 6%Q)
    (fun _ => Resolved Sample.not_found) (Sample.loaded [Sample.a]) Hfail)
    as [Hurl [Hloc _]].
  split; [exact Hfail |]. split; [exact Hloc | exact Hurl].
Defined.

(** ** The map centre *)

Lemma mapCenter_snoc (l : list Loc.t) (r : Loc.t) :
  mapCenter (l ++ [r]) = (Loc.latitude r, Loc.longitude r).
Proof.
  unfold mapCenter. rewrite length_app, Nat.add_1_r. simpl Nat.ltb.
  cbv iota. rewrite Nat.sub_1_r. simpl Nat.pred.
  by rewrite list_lookup_middle.
Qed.

Lemma mapCenter_last (l : list Loc.t) :
  mapCenter l
  = match last l with
    | Some r => (Loc.latitude r, Loc.longitude r)
    | None => (Some default_latitude, Some default_longitude)
    end.
Proof.
  destruct l as [| x l] using rev_ind; [done |].
  by rewrite mapCenter_snoc, last_snoc.
Qed.

(** C6: the map centre is the pair of coordinates of the last record of the
    collection, in the order the records were put in, and (51.505, -0.09) for
    the empty collection.  It is read off the position in the list alone:
    rewriting the time stamps of the records in any way leaves it the same,
    and after an append it is the appended record's coordinates. *)
Theorem mapCenter_is_last_inserted :
  mapCenter [] = (Some 51.505%Q, Some (-0.09)%Q)
  /\ (forall l,
        mapCenter l
        = match last l with
          | Some r => (Loc.latitude r, Loc.longitude r)
          | None => (Some 51.505%Q, Some (-0.09)%Q)
          end)
  /\ (forall l r, mapCenter (l ++ [r]) = (Loc.latitude r, Loc.longitude r))
  /\ (forall (stamp : Loc.t -> option Timestamp) l,
        mapCenter ((fun r => Loc.with_timestamp (stamp r) r) <$> l)
        = mapCenter l).
Proof.
  split; [done |]. split; [apply mapCenter_last |].
  split; [apply mapCenter_snoc |].
  intros stamp l. rewrite !mapCenter_last, fmap_last.
  by destruct (last l).
Qed.

(** ** Snapshot, then stream *)

Lemma fetchLocations_all_resolved (p : Page) (one : Settled Loc.t)
    (snapshot : list Loc.t) (now : Z) (st : AppState) :
  single_mode p = false ->
  locations (state_after (fetchLocations p one (Resolved snapshot) now) st)
  = snapshot.
Proof. intros Hmode. unfold fetchLocations. by rewrite Hmode. Qed.

(** C7: in all-locations mode, once the snapshot has set the collection, a
    stream event puts its record at the end and leaves the earlier records
    where they were; with the snapshot [[a]] and the event [b] the collection
    is [[a; b]].  The handler does not look at the id, so a previously unseen
    id needs no separate assumption. *)
Theorem newLocation_appends_after_snapshot (p : Page) (one : Settled Loc.t)
    (snapshot : list Loc.t) (now : Z) (location : Loc.t) (st : AppState) :
  single_mode p = false ->
  let st' :=
    state_after (run p [Fetched one (Resolved snapshot) now;
                        NewLocation location]) st in
  locations st' = snapshot ++ [location]
  /\ length (locations st') = S (length snapshot)
  /\ (forall i r, snapshot !! i = Some r -> locations st' !! i = Some r)
  /\ locations st' !! length snapshot = Some location.
Proof.
  intros Hmode st'.
  assert (Hst : locations st' = snapshot ++ [location]).
  { subst st'. simpl run. rewrite !state_after_and_then.
    simpl handle. change (state_after skip ?s) with s.
    rewrite onNewLocation_all by done.
    by rewrite fetchLocations_all_resolved. }
  rewrite Hst. split; [done |]. split; [| split].
  - rewrite length_app. simpl. lia.
  - intros i r Hi. by apply lookup_app_l_Some.
  - by rewrite list_lookup_middle.
Qed.

Lemma newLocation_appends_after_snapshot_witness :
  single_mode Sample.all_page = false
  /\ locations (state_after
       (run Sample.all_page [Fetched Threw (Resolved [Sample.a]) 0;
                             NewLocation Sample.b]) initial)
     = [Sample.a; Sample.b].
Proof.
  split; [reflexivity |].
  exact (proj1 (newLocation_appends_after_snapshot Sample.all_page Threw
    [Sample.a] 0 Sample.b initial eq_refl)).
Defined.

(** ** A connection error *)

(** C9, the claim as it stands fails: with the snapshot [[a]] on screen, a
    connection error makes the component return the error page, which holds
    neither the map nor the list. *)
Lemma connect_error_hides_snapshot :
  let st := Sample.loaded [Sample.a] in
  let st' := state_after onConnectError st in
  shown (render Sample.all_page st) = Some ([marker Sample.a], [Sample.a])
  /\ render Sample.all_page st' = ErrorView connect_failed
  /\ shown (render Sample.all_page st') = None.
Proof. by repeat split. Qed.

(** C9, amended: a connection error only sets the error message; the
    collection, the name, the share link and the loading flag stay in the
    state as they were and no request is issued.  Once the snapshot has been
    loaded, the page rendered from that state is the error page with the
    connectivity message alone: map and list are not rendered while the
    message is set. *)
Theorem connect_error_keeps_state_shows_error (p : Page) (st : AppState) :
  let st' := state_after onConnectError st in
  st' = {| username := username st; locations := locations st;
           shareUrl := shareUrl st; error := connect_failed;
           isLoading := isLoading st |}
  /\ requests onConnectError st = []
  /\ (isLoading st = false ->
      render p st' = ErrorView connect_failed
      /\ shown (render p st') = None).
Proof.
  split; [done |]. split; [done |].
  intros Hloaded. unfold render. simpl. by rewrite Hloaded.
Qed.

Lemma connect_error_keeps_state_shows_error_witness :
  isLoading (Sample.loaded [Sample.a]) = false
  /\ locations (state_after onConnectError (Sample.loaded [Sample.a]))
     = [Sample.a]
  /\ render Sample.all_page
       (state_after onConnectError (Sample.loaded [Sample.a]))
     = ErrorView connect_failed.
Proof.
  pose proof (connect_error_keeps_state_shows_error Sample.all_page
    (Sample.loaded [Sample.a])) as [Hst [_ Hview]].
  split; [reflexivity |]. split.
  - exact (f_equal locations Hst).
  - exact (proj1 (Hview eq_refl)).
Defined.

(** ** Shapes of the handlers *)

Lemma state_after_run_app (p : Page) (evs1 evs2 : list Event) (st : AppState) :
  state_after (run p (evs1 ++ evs2)) st
  = state_after (run p evs2) (state_after (run p evs1) st).
Proof.
  revert st. induction evs1 as [| ev evs1 IH]; intros st; [done |].
  simpl. by rewrite !state_after_and_then, IH.
Qed.

Lemma forallb_any (evs : list Event) : forallb (fun _ => true) evs = true.
Proof. by induction evs. Qed.

Lemma maintains_run (P : AppState -> Prop) (ok : Event -> bool) (p : Page) :
  (forall ev, ok ev = true -> maintains P (handle p ev)) ->
  forall evs, forallb ok evs = true -> maintains P (run p evs).
Proof.
  intros Hstep evs. induction evs as [| ev evs IH]; intros Hok st HP; [done |].
  simpl in Hok. apply andb_prop in Hok as [Hev Hevs].
  simpl run. rewrite state_after_and_then.
  apply IH; [done |]. by apply Hstep.
Qed.

(** Whatever the answers, the snapshot fetch writes a collection that does
    not depend on the state it finds, possibly an error message, and clears
    the loading flag. *)
Lemma fetchLocations_shape (p : Page) (one : Settled Loc.t)
    (all : Settled (list Loc.t)) (now : Z) :
  exists (l : list Loc.t) (e : option string),
    (forall st,
       fetchLocations p one all now st
       = ({| username := username st; locations := l;
             shareUrl := shareUrl st;
             error := match e with Some m => m | None => error st end;
             isLoading := false |}, [HttpGet (snapshot_url p)]))
    /\ (forall m, e = Some m -> truthy m = true)
    /\ (single_mode p = true -> length l <= 1)%nat.
Proof.
  unfold fetchLocations, snapshot_url.
  destruct (single_mode p) eqn:Hmode.
  - destruct one as [| data].
    + exists [fallback now], (Some fetch_failed).
      split; [done |]. split; [by intros m [= <-] | done].
    + destruct (Loc.error data) as [msg |] eqn:Herr.
      * destruct (truthy msg) eqn:Hmsg.
        -- exists [], (Some msg). split; [done |].
           split; [by intros m [= <-] | simpl; lia].
        -- exists [data], None. split; [done |]. split; [done | done].
      * exists [data], None. split; [done |]. split; [done | done].
  - destruct all as [| data].
    + exists [fallback now], (Some fetch_failed).
      split; [done |]. split; [by intros m [= <-] | done].
    + exists data, None. split; [done |]. split; [done | done].
Qed.

(** A share attempt either sets one non-empty error message, or runs the
    [.then] callback on a body without [error]. *)
Lemma shareLocation_outcome (p : Page) (capture : Capture)
    (post : ShareBody -> Settled Loc.t) (st : AppState) :
  (exists msg,
     truthy msg = true
     /\ state_after (shareLocation p capture post) st
        = state_after (setError msg) st)
  \/ (exists data,
        truthy_opt (Loc.error data) = false
        /\ state_after (shareLocation p capture post) st
           = state_after (shareLocation_then p data) st).
Proof.
  destruct (truthy (username st)) eqn:Hname.
  2: { left. eexists. split; [| unfold state_after, shareLocation, reading;
         cbv beta; by rewrite Hname]. done. }
  destruct (geolocation p) eqn:Hgeo.
  2: { left. eexists. split; [| unfold state_after, shareLocation, reading;
         cbv beta; by rewrite Hname, Hgeo]. done. }
  destruct capture as [lat lng | message].
  - destruct (post {| body_username := username st; body_latitude := lat;
                      body_longitude := lng |}) as [| data] eqn:Hpost.
    + left. eexists. split; [| unfold state_after;
        rewrite shareLocation_started by done;
        unfold and_then, perform, shareLocation_position;
        by rewrite Hpost]. done.
    + rewrite (shareLocation_resolved p st lat lng post data) by done.
      destruct (truthy_opt (Loc.error data)) eqn:Herr.
      * left. unfold shareLocation_then.
        destruct (Loc.error data) as [msg |]; simpl in Herr; [| done].
        rewrite Herr. by exists msg.
      * right. by exists data.
  - left. exists ("Error getting location: " +:+ message). split; [done |].
    unfold state_after. by rewrite shareLocation_started.
Qed.

(** Outside the snapshot fetch, a handler can only add records at the end of
    the collection, and adds none in single-location mode. *)
Lemma handle_locations (p : Page) (ev : Event) (st : AppState) :
  is_Fetched ev = false ->
  exists k,
    locations (state_after (handle p ev) st) = locations st ++ k
    /\ (single_mode p = true -> k = []).
Proof.
  intros Hev. destruct ev as [one all now | location | | value | capture post];
    [done | | | |]; simpl handle.
  - unfold onNewLocation. destruct (single_mode p); simpl.
    + exists []. by rewrite app_nil_r.
    + by exists [location].
  - exists []. by rewrite app_nil_r.
  - exists []. by rewrite app_nil_r.
  - destruct (shareLocation_outcome p capture post st)
      as [(msg & _ & ->) | (data & Hok & ->)].
    + exists []. by rewrite app_nil_r.
    + unfold state_after. rewrite shareLocation_then_ok by done. simpl.
      exists (if single_mode p then [] else [data]).
      split; [done |]. by intros ->.
Qed.

(** ** The snapshot fetch on every path *)

(** X1: however the request settles, the snapshot fetch clears the loading
    flag, so the loading page is left; it issues exactly one GET, to the
    single-record URL in single-location mode and to the collection URL
    otherwise; it never writes the name or the share link. *)
Theorem fetchLocations_always_settles (p : Page) (one : Settled Loc.t)
    (all : Settled (list Loc.t)) (now : Z) (st : AppState) :
  let st' := state_after (fetchLocations p one all now) st in
  isLoading st' = false
  /\ render p st' <> LoadingView
  /\ username st' = username st
  /\ shareUrl st' = shareUrl st
  /\ requests (fetchLocations p one all now) st
     = [HttpGet (if single_mode p then
                   backend +:+ "/api/locations/" +:+ interpolate (locationId p)
                 else backend +:+ "/api/locations")].
Proof.
  destruct (fetchLocations_shape p one all now) as (l & e & Hshape & _ & _).
  unfold state_after, requests. rewrite Hshape. simpl.
  repeat split. unfold render; simpl.
  by destruct (truthy _).
Qed.

(** X2: the snapshot replaces the collection whatever it held.  The
    collection after the fetch settles is the same from every state, so the
    records that stream events or shares added before the fetch settled are
    gone. *)
Theorem snapshot_overrides_earlier_events (p : Page) (one : Settled Loc.t)
    (all : Settled (list Loc.t)) (now : Z) (evs : list Event)
    (st : AppState) :
  locations (state_after (run p (evs ++ [Fetched one all now])) st)
  = locations (state_after (fetchLocations p one all now) initial).
Proof.
  rewrite state_after_run_app. simpl run. rewrite state_after_and_then.
  simpl handle. change (state_after skip ?s) with s.
  destruct (fetchLocations_shape p one all now) as (l & e & Hshape & _ & _).
  unfold state_after at 1 3. by rewrite !Hshape.
Qed.

(** ** The collection over a whole run *)

(** X3: in single-location mode only the snapshot fetch writes the
    collection, and it writes at most one record; so the collection never
    holds more than one record, whatever events arrive. *)
Theorem single_mode_at_most_one_record (p : Page) :
  single_mode p = true ->
  (forall ev st,
     is_Fetched ev = false ->
     locations (state_after (handle p ev) st) = locations st)
  /\ (forall evs st,
        (length (locations st) <= 1)%nat ->
        (length (locations (state_after (run p evs) st)) <= 1)%nat).
Proof.
  intros Hmode.
  assert (Hkeep : forall ev st, is_Fetched ev = false ->
    locations (state_after (handle p ev) st) = locations st).
  { intros ev st Hev.
    destruct (handle_locations p ev st Hev) as (k & -> & Hk).
    by rewrite (Hk Hmode), app_nil_r. }
  split; [done |].
  intros evs st0 Hlen0.
  apply (maintains_run (fun s => (length (locations s) <= 1)%nat)
    (fun _ => true) p); [| apply forallb_any | done].
  intros ev _ st Hlen. destruct (is_Fetched ev) eqn:Hev.
  - destruct ev as [one all now | | | |]; try done. simpl handle.
    destruct (fetchLocations_shape p one all now) as (l & e & Hshape & _ & Hl).
    unfold state_after. rewrite Hshape. simpl. by apply Hl.
  - by rewrite Hkeep.
Qed.

Lemma single_mode_at_most_one_record_witness :
  single_mode Sample.single_page = true
  /\ (length (locations initial) <= 1)%nat
  /\ (length (locations (state_after
        (run Sample.single_page
           [NewLocation Sample.b; Fetched (Resolved Sample.a) Threw 0;
            NewLocation Sample.xyz;
            ShareClicked (Position 5%Q 6%Q) (fun _ => Resolved Sample.xyz)])
        initial)) <= 1)%nat.
Proof.
  assert (Hlen : (length (locations initial) <= 1)%nat) by (simpl; lia).
  split; [reflexivity |]. split; [exact Hlen |].
  exact (proj2 (single_mode_at_most_one_record Sample.single_page eq_refl)
    _ initial Hlen).
Defined.

(** X4: apart from the snapshot fetch, no handler removes, rewrites or
    reorders a record: over any run without a fetch the collection it started
    from is a prefix of the collection it ends with. *)
Theorem records_only_appended_outside_fetch (p : Page) (evs : list Event)
    (st : AppState) :
  forallb (fun ev => negb (is_Fetched ev)) evs = true ->
  locations st `prefix_of` locations (state_after (run p evs) st).
Proof.
  intros Hevs.
  apply (maintains_run (fun st' => locations st `prefix_of` locations st')
    (fun ev => negb (is_Fetched ev))); [| done | done].
  intros ev Hev st' Hprefix. apply negb_true_iff in Hev.
  destruct (handle_locations p ev st' Hev) as (k & -> & _).
  by apply prefix_app_r.
Qed.

Lemma records_only_appended_outside_fetch_witness :
  forallb (fun ev => negb (is_Fetched ev))
    [NewLocation Sample.b; ConnectError; Typed "zoe"] = true
  /\ [Sample.a] `prefix_of`
       locations (state_after
         (run Sample.all_page [NewLocation Sample.b; ConnectError; Typed "zoe"])
         (Sample.loaded [Sample.a])).
Proof.
  split; [reflexivity |].
  exact (records_only_appended_outside_fetch Sample.all_page
    [NewLocation Sample.b; ConnectError; Typed "zoe"]
    (Sample.loaded [Sample.a]) eq_refl).
Defined.

(** ** The error message, the loading flag and the share link over a run *)

Lemma handle_isLoading (p : Page) (ev : Event) :
  maintains (fun st => isLoading st = false) (handle p ev).
Proof.
  intros st Hloaded.
  destruct ev as [one all now | location | | value | capture post];
    simpl handle.
  - destruct (fetchLocations_shape p one all now) as (l & e & Hshape & _).
    unfold state_after. by rewrite Hshape.
  - unfold onNewLocation. by destruct (single_mode p).
  - done.
  - done.
  - destruct (shareLocation_outcome p capture post st)
      as [(msg & _ & ->) | (data & Hok & ->)]; [done |].
    unfold state_after. by rewrite shareLocation_then_ok.
Qed.

Lemma handle_keeps_error (p : Page) (ev : Event) :
  is_ShareClicked ev = false ->
  maintains (fun st => truthy (error st) = true) (handle p ev).
Proof.
  intros Hev st Herror.
  destruct ev as [one all now | location | | value | capture post];
    [| | | | done]; simpl handle.
  - destruct (fetchLocations_shape p one all now) as (l & e & Hshape & He & _).
    unfold state_after. rewrite Hshape. simpl.
    destruct e as [m |]; [by apply He | done].
  - unfold onNewLocation. by destruct (single_mode p).
  - done.
  - done.
Qed.

(** X5: an error message, once set, is cleared by nothing but a share that
    succeeds.  A single event that clears it is a share whose [.then]
    callback ran on a body without [error]; over any run without a share the
    message stays set, and once the snapshot fetch has settled the page
    rendered at the end is the error page. *)
Theorem error_cleared_only_by_successful_share (p : Page) :
  (forall ev st,
     truthy (error st) = true ->
     truthy (error (state_after (handle p ev) st)) = false ->
     exists capture post data,
       ev = ShareClicked capture post
       /\ truthy_opt (Loc.error data) = false
       /\ state_after (handle p ev) st
          = state_after (shareLocation_then p data) st)
  /\ (forall evs st,
        truthy (error st) = true ->
        forallb (fun ev => negb (is_ShareClicked ev)) evs = true ->
        let st' := state_after (run p evs) st in
        truthy (error st') = true
        /\ (isLoading st = false -> render p st' = ErrorView (error st'))).
Proof.
  split.
  - intros ev st Herror Hcleared.
    destruct (is_ShareClicked ev) eqn:Hev.
    + destruct ev as [| | | | capture post]; try done.
      exists capture, post. simpl handle in *.
      destruct (shareLocation_outcome p capture post st)
        as [(msg & Hmsg & Hst) | (data & Hok & Hst)].
      * rewrite Hst in Hcleared. simpl in Hcleared. congruence.
      * by exists data.
    + pose proof (handle_keeps_error p ev Hev st Herror) as Hkept.
      simpl in Hkept. congruence.
  - intros evs st Herror Hevs st'.
    assert (Hkept : truthy (error st') = true).
    { apply (maintains_run (fun s => truthy (error s) = true)
        (fun ev => negb (is_ShareClicked ev)) p); [| done | done].
      intros ev Hev. apply handle_keeps_error. by apply negb_true_iff. }
    split; [done |]. intros Hloaded.
    assert (Hstill : isLoading st' = false).
    { apply (maintains_run (fun s => isLoading s = false) (fun _ => true) p);
        [| apply forallb_any | done].
      intros ev _. apply handle_isLoading. }
    unfold render. by rewrite Hstill, Hkept.
Qed.

Lemma error_cleared_only_by_successful_share_witness :
  let evs := [Fetched Threw (Resolved [Sample.a]) 0; NewLocation Sample.b] in
  let st := state_after onConnectError initial in
  truthy (error st) = true
  /\ forallb (fun ev => negb (is_ShareClicked ev)) evs = true
  /\ truthy (error (state_after (run Sample.all_page evs) st)) = true.
Proof.
  intros evs st.
  split; [reflexivity |]. split; [reflexivity |].
  exact (proj1 (proj2 (error_cleared_only_by_successful_share Sample.all_page)
    evs st eq_refl eq_refl)).
Defined.

(** X7: once the snapshot fetch has settled, no event brings the loading page
    back: no handler sets the loading flag. *)
Theorem loading_page_never_returns (p : Page) (evs : list Event)
    (st : AppState) :
  isLoading st = false \/ existsb is_Fetched evs = true ->
  isLoading (state_after (run p evs) st) = false
  /\ render p (state_after (run p evs) st) <> LoadingView.
Proof.
  intros Hsettled.
  assert (Hloaded : isLoading (state_after (run p evs) st) = false).
  { revert st Hsettled. induction evs as [| ev evs IH]; intros st Hsettled.
    - by destruct Hsettled.
    - simpl run. rewrite state_after_and_then. apply IH.
      destruct Hsettled as [Hst | Hevs].
      + left. by apply handle_isLoading.
      + simpl in Hevs. apply orb_prop in Hevs as [Hev | Hevs]; [| by right].
        left. destruct ev as [one all now | | | |]; try done. simpl handle.
        destruct (fetchLocations_shape p one all now) as (l & e & Hshape & _).
        unfold state_after. by rewrite Hshape. }
  split; [done |]. unfold render. rewrite Hloaded.
  by destruct (truthy _).
Qed.

Lemma loading_page_never_returns_witness :
  let evs := [NewLocation Sample.b; Fetched Threw Threw 0; ConnectError] in
  (isLoading initial = false \/ existsb is_Fetched evs = true)
  /\ isLoading (state_after (run Sample.all_page evs) initial) = false.
Proof.
  intros evs.
  assert (H : isLoading initial = false \/ existsb is_Fetched evs = true)
    by (right; reflexivity).
  split; [exact H |].
  exact (proj1 (loading_page_never_returns Sample.all_page evs initial H)).
Defined.



(** ** What a share asks of the browser and the backend *)

Lemma shareLocation_then_requests (p : Page) (data : Loc.t) (st : AppState) :
  requests (shareLocation_then p data) st = [].
Proof.
  unfold requests, shareLocation_then.
  destruct (Loc.error data) as [msg |]; [destruct (truthy msg) |];
    by destruct (single_mode p).
Qed.

(** X6: with a name entered and the capability present, a share asks for the
    position exactly once, and posts only after a position was captured: one
    POST to the creation endpoint carrying exactly the name in the state and
    the captured coordinates, whatever the backend then answers.  A failed
    capture sends nothing to the backend. *)
Theorem share_requests_capture_then_post (p : Page) (capture : Capture)
    (post : ShareBody -> Settled Loc.t) (st : AppState) :
  truthy (username st) = true ->
  geolocation p = true ->
  requests (shareLocation p capture post) st
  = match capture with
    | Position lat lng =>
        [GetCurrentPosition;
         HttpPost (backend +:+ "/api/locations")
           {| body_username := username st; body_latitude := lat;
              body_longitude := lng |}]
    | PositionError _ => [GetCurrentPosition]
    end.
Proof.
  intros Hname Hgeo. unfold requests.
  rewrite shareLocation_started by done.
  destruct capture as [lat lng | message]; [| done].
  change (requests (perform GetCurrentPosition ;;
    shareLocation_position p (username st) lat lng post) st = 
    [GetCurrentPosition;
     HttpPost (backend +:+ "/api/locations")
       {| body_username := username st; body_latitude := lat;
          body_longitude := lng |}]).
  unfold shareLocation_position. rewrite !requests_and_then.
  destruct (post _) as [| data]; [done |].
  by rewrite shareLocation_then_requests.
Qed.

Lemma share_requests_capture_then_post_witness :
  let st := Sample.loaded [] in
  truthy (username st) = true
  /\ geolocation Sample.all_page = true
  /\ requests (shareLocation Sample.all_page (Position 5%Q 6%Q)
       (fun _ => Threw)) st
     = [GetCurrentPosition;
        HttpPost "http://localhost:5000/api/locations"
          {| body_username := "zoe"; body_latitude := 5%Q;
             body_longitude := 6%Q |}].
Proof.
  intros st.
  split; [reflexivity |]. split; [reflexivity |].
  exact (share_requests_capture_then_post Sample.all_page (Position 5%Q 6%Q)
    (fun _ => Threw) st eq_refl eq_refl).
Defined.

(** X9: a created record that comes back without [error] and without [_id]
    still counts as a success: the share link ends in [locationId=undefined],
    the record is appended in all-locations mode and the error message is
    cleared. *)
Theorem share_without_id_links_undefined (p : Page) (data : Loc.t)
    (st : AppState) :
  truthy_opt (Loc.error data) = false ->
  Loc._id data = None ->
  let st' := state_after (shareLocation_then p data) st in
  shareUrl st' = origin p +:+ "?locationId=undefined"
  /\ locations st' = locations st ++ (if single_mode p then [] else [data])
  /\ error st' = EmptyString.
Proof.
  intros Hok Hid st'. subst st'. unfold state_after.
  rewrite shareLocation_then_ok by done. simpl. by rewrite Hid.
Qed.

Lemma share_without_id_links_undefined_witness :
  truthy_opt (Loc.error Sample.anonymous) = false
  /\ Loc._id Sample.anonymous = None
  /\ shareUrl (state_after (shareLocation_then Sample.all_page Sample.anonymous)
       (Sample.loaded []))
     = "http://localhost:3000?locationId=undefined".
Proof.
  split; [reflexivity |]. split; [reflexivity |].
  exact (proj1 (share_without_id_links_undefined Sample.all_page
    Sample.anonymous (Sample.loaded []) eq_refl eq_refl)).
Defined.

(** X16: in a browser without the position capability the component never
    captures a position and never posts: over any run, every request it
    issues is a GET. *)
Theorem no_capability_only_gets (p : Page) (evs : list Event) (st : AppState) :
  geolocation p = false ->
  forallb is_HttpGet (requests (run p evs) st) = true.
Proof.
  intros Hgeo. revert st. induction evs as [| ev evs IH]; intros st; [done |].
  simpl run. rewrite requests_and_then, forallb_app, IH, andb_true_r.
  destruct ev as [one all now | location | | value | capture post];
    simpl handle.
  - destruct (fetchLocations_shape p one all now) as (l & e & Hshape & _).
    unfold requests. by rewrite Hshape.
  - unfold requests, onNewLocation. by destruct (single_mode p).
  - done.
  - done.
  - unfold requests, shareLocation, reading. cbv beta. rewrite Hgeo.
    by destruct (truthy (username st)).
Qed.

Lemma no_capability_only_gets_witness :
  let evs := [Fetched Threw (Resolved [Sample.a]) 0; Typed "zoe";
              ShareClicked (Position 5%Q 6%Q) (fun _ => Resolved Sample.xyz)] in
  geolocation Sample.no_geo_page = false
  /\ forallb is_HttpGet (requests (run Sample.no_geo_page evs) initial) = true.
Proof.
  intros evs. split; [reflexivity |].
  exact (no_capability_only_gets Sample.no_geo_page evs initial eq_refl).
Defined.

(** ** A snapshot that arrives *)

(** X10: in single-location mode a body without a non-empty [error] (an
    absent [error] or an empty one) becomes the whole collection; the error
    message in the state is left as it was, not cleared; and when no message
    is set the page shows that one record, centred on it, without the name
    input and the share link. *)
Theorem fetch_single_record_loaded (p : Page) (data : Loc.t)
    (all : Settled (list Loc.t)) (now : Z) (st : AppState) :
  single_mode p = true ->
  truthy_opt (Loc.error data) = false ->
  let st' := state_after (fetchLocations p (Resolved data) all now) st in
  locations st' = [data]
  /\ error st' = error st
  /\ (truthy (error st) = false ->
      render p st'
      = MainView None None (Loc.latitude data, Loc.longitude data)
          [marker data] [data]).
Proof.
  intros Hmode Hok st'.
  assert (Hst : st' = {| username := username st; locations := [data];
    shareUrl := shareUrl st; error := error st; isLoading := false |}).
  { subst st'. unfold fetchLocations. rewrite Hmode.
    destruct (Loc.error data) as [msg |]; simpl in Hok; by rewrite ?Hok. }
  rewrite Hst. split; [done |]. split; [done |].
  intros Hclean. unfold render. simpl. rewrite Hclean, Hmode. simpl.
  by rewrite andb_false_r.
Qed.

Lemma fetch_single_record_loaded_witness :
  single_mode Sample.single_page = true
  /\ truthy_opt (Loc.error Sample.a) = false
  /\ locations (state_after
       (fetchLocations Sample.single_page (Resolved Sample.a) Threw 0)
       initial) = [Sample.a].
Proof.
  split; [reflexivity |]. split; [reflexivity |].
  exact (proj1 (fetch_single_record_loaded Sample.single_page Sample.a
    Threw 0 initial eq_refl eq_refl)).
Defined.

(** X11: in all-locations mode the resolved array becomes the collection as
    it is, in the order received; the error message is left as it was; and
    when no message is set the page lists these records in that order, one
    marker each, centred on the last one. *)
Theorem snapshot_rendered_in_order (p : Page) (one : Settled Loc.t)
    (snapshot : list Loc.t) (now : Z) (st : AppState) :
  single_mode p = false ->
  let st' := state_after (fetchLocations p one (Resolved snapshot) now) st in
  locations st' = snapshot
  /\ error st' = error st
  /\ (truthy (error st) = false ->
      render p st'
      = MainView (Some (username st))
          (if truthy (shareUrl st) then Some (shareUrl st) else None)
          (mapCenter snapshot) (marker <$> snapshot) snapshot).
Proof.
  intros Hmode st'.
  assert (Hst : st' = {| username := username st; locations := snapshot;
    shareUrl := shareUrl st; error := error st; isLoading := false |}).
  { subst st'. unfold fetchLocations. by rewrite Hmode. }
  rewrite Hst. split; [done |]. split; [done |].
  intros Hclean. unfold render. simpl. rewrite Hclean, Hmode. simpl.
  by rewrite andb_true_r.
Qed.

Lemma snapshot_rendered_in_order_witness :
  single_mode Sample.all_page = false
  /\ locations (state_after
       (fetchLocations Sample.all_page Threw (Resolved [Sample.b; Sample.a]) 0)
       initial) = [Sample.b; Sample.a].
Proof.
  split; [reflexivity |].
  exact (proj1 (snapshot_rendered_in_order Sample.all_page Threw
    [Sample.b; Sample.a] 0 initial eq_refl)).
Defined.

(** X13: in all-locations mode, on a loaded page without an error, a stream
    event puts its record on the page as the last entry and the last marker
    and moves the map onto it: the centre is the new record's coordinates
    and the map-centre effect calls [setView] with them at zoom 13. *)
Theorem newLocation_recentres_map (p : Page) (location : Loc.t)
    (st : AppState) :
  single_mode p = false ->
  isLoading st = false ->
  truthy (error st) = false ->
  let st' := state_after (onNewLocation p location) st in
  render p st'
  = MainView (Some (username st))
      (if truthy (shareUrl st) then Some (shareUrl st) else None)
      (Loc.latitude location, Loc.longitude location)
      ((marker <$> locations st) ++ [marker location])
      (locations st ++ [location])
  /\ UpdateMapCenter (Some (mapCenter (locations st')))
     = [SetView (Loc.latitude location, Loc.longitude location) 13].
Proof.
  intros Hmode Hloaded Hclean st'.
  assert (Hst : st' = {| username := username st;
    locations := locations st ++ [location]; shareUrl := shareUrl st;
    error := error st; isLoading := isLoading st |}).
  { subst st'. unfold onNewLocation. by rewrite Hmode. }
  rewrite Hst. unfold render. simpl.
  rewrite Hloaded, Hclean, Hmode, mapCenter_snoc, fmap_app. simpl.
  by rewrite andb_true_r.
Qed.

Lemma newLocation_recentres_map_witness :
  let st := Sample.loaded [Sample.a] in
  single_mode Sample.all_page = false
  /\ isLoading st = false
  /\ truthy (error st) = false
  /\ UpdateMapCenter (Some (mapCenter (locations
       (state_after (onNewLocation Sample.all_page Sample.b) st))))
     = [SetView (Some 3%Q, Some 4%Q) 13].
Proof.
  intros st. do 3 (split; [reflexivity |]).
  exact (proj2 (newLocation_recentres_map Sample.all_page Sample.b st
    eq_refl eq_refl eq_refl)).
Defined.

(** ** An empty identifier, and what single-location mode hides *)

(** X12: a page address whose [locationId] is the empty string is treated
    exactly like an address without [locationId]: every handler and the
    render give the same result as on the page with the parameter absent. *)
Theorem empty_locationId_is_all_mode (p : Page) :
  locationId p = Some EmptyString ->
  let q := {| locationId := None; origin := origin p;
              geolocation := geolocation p |} in
  single_mode p = false
  /\ (forall ev st, handle p ev st = handle q ev st)
  /\ (forall st, render p st = render q st).
Proof.
  intros Hid q.
  assert (Hmode : single_mode p = false) by (unfold single_mode; by rewrite Hid).
  split; [done |]. split.
  - intros ev st.
    destruct ev as [one all now | location | | value | capture post];
      simpl handle.
    + unfold fetchLocations. by rewrite Hmode.
    + unfold onNewLocation. by rewrite Hmode.
    + done.
    + done.
    + unfold shareLocation, reading, shareLocation_position,
        shareLocation_then. by rewrite Hmode.
  - intros st. unfold render. by rewrite Hmode.
Qed.

Lemma empty_locationId_is_all_mode_witness :
  locationId Sample.empty_id_page = Some EmptyString
  /\ locations (state_after (onNewLocation Sample.empty_id_page Sample.b)
       (Sample.loaded [Sample.a])) = [Sample.a; Sample.b].
Proof.
  split; [reflexivity |].
  pose proof (proj1 (proj2 (empty_locationId_is_all_mode Sample.empty_id_page
    eq_refl)) (NewLocation Sample.b) (Sample.loaded [Sample.a])) as H.
  exact (f_equal (fun r => locations (fst r)) H).
Defined.

(** X17: the [.then] callback of a share has no guard on the mode for the
    link: in single-location mode a successful share still writes the link
    into the state and clears the error message, but the collection is left
    alone and the page rendered from that state (once loaded) shows neither
    the name input nor the link. *)
Theorem single_mode_share_is_invisible (p : Page) (data : Loc.t)
    (st : AppState) :
  single_mode p = true ->
  truthy_opt (Loc.error data) = false ->
  let st' := state_after (shareLocation_then p data) st in
  shareUrl st' = origin p +:+ "?locationId=" +:+ interpolate (Loc._id data)
  /\ locations st' = locations st
  /\ (isLoading st = false ->
      render p st'
      = MainView None None (mapCenter (locations st))
          (marker <$> locations st) (locations st)).
Proof.
  intros Hmode Hok st'. subst st'. unfold state_after.
  rewrite shareLocation_then_ok by done. rewrite Hmode. simpl.
  rewrite app_nil_r. split; [done |]. split; [done |].
  intros Hloaded. unfold render. simpl. rewrite Hloaded, Hmode. simpl.
  by rewrite andb_false_r.
Qed.

Lemma single_mode_share_is_invisible_witness :
  let st := state_after (shareLocation_then Sample.single_page Sample.xyz)
              (Sample.loaded [Sample.a]) in
  single_mode Sample.single_page = true
  /\ truthy_opt (Loc.error Sample.xyz) = false
  /\ shareUrl st = "http://localhost:3000?locationId=xyz"
  /\ locations st = [Sample.a].
Proof.
  intros st.
  pose proof (single_mode_share_is_invisible Sample.single_page Sample.xyz
    (Sample.loaded [Sample.a]) eq_refl eq_refl) as [Hurl [Hloc _]].
  split; [reflexivity |]. split; [reflexivity |].
  split; [exact Hurl | exact Hloc].
Defined.

(** ** The echo of one's own share *)

Lemma occurrences_app (i : option string) (l k : list Loc.t) :
  occurrences i (l ++ k) = (occurrences i l + occurrences i k)%nat.
Proof. unfold occurrences. by rewrite filter_app, length_app. Qed.

(** X15: in all-locations mode a record that arrives both as the answer to
    the own share and as a stream event is stored twice, in either order of
    arrival: the collection grows by two copies, so its id occurs at least
    twice. *)
Theorem share_and_echo_store_twice (p : Page) (data : Loc.t) (st : AppState) :
  single_mode p = false ->
  truthy_opt (Loc.error data) = false ->
  let answer_first :=
    state_after (shareLocation_then p data ;; onNewLocation p data) st in
  let echo_first :=
    state_after (onNewLocation p data ;; shareLocation_then p data) st in
  locations answer_first = locations st ++ [data; data]
  /\ locations echo_first = locations st ++ [data; data]
  /\ (2 <= occurrences (Loc._id data) (locations answer_first))%nat.
Proof.
  intros Hmode Hok answer_first echo_first.
  assert (Hanswer : locations answer_first = locations st ++ [data; data]).
  { subst answer_first. rewrite state_after_and_then.
    rewrite onNewLocation_all by done.
    rewrite shareLocation_then_locations by done.
    by rewrite Hmode, <- app_assoc. }
  split; [done |]. split.
  - subst echo_first. rewrite state_after_and_then.
    rewrite shareLocation_then_locations by done.
    rewrite onNewLocation_all by done.
    by rewrite Hmode, <- app_assoc.
  - rewrite Hanswer, occurrences_app, !occurrences_cons.
    rewrite decide_True by done. lia.
Qed.

Lemma share_and_echo_store_twice_witness :
  single_mode Sample.all_page = false
  /\ truthy_opt (Loc.error Sample.xyz) = false
  /\ locations (state_after
       (shareLocation_then Sample.all_page Sample.xyz ;;
        onNewLocation Sample.all_page Sample.xyz) (Sample.loaded [Sample.a]))
     = [Sample.a; Sample.xyz; Sample.xyz].
Proof.
  split; [reflexivity |]. split; [reflexivity |].
  exact (proj1 (share_and_echo_store_twice Sample.all_page Sample.xyz
    (Sample.loaded [Sample.a]) eq_refl eq_refl)).
Defined.

(** ** Copying the link *)

(** X14: copying writes exactly the share link of the state to the clipboard
    and never touches the collection, the link or the name.  When the write
    resolves the state is unchanged and the alert follows; when it is
    rejected the one change is the error message, and the page rendered from
    that state (once loaded) is the error page, in place of the map and the
    list.  Without [navigator.clipboard] the handler throws before anything
    is written. *)
Theorem copyToClipboard_outcomes (p : Page) (st : AppState) :
  copyToClipboard None st = None
  /\ (forall u,
        copyToClipboard (Some (Resolved u)) st
        = Some (st, [ClipboardWrite (shareUrl st);
                     Alert "URL copied to clipboard!"]))
  /\ (exists st',
        copyToClipboard (Some Threw) st
        = Some (st', [ClipboardWrite (shareUrl st)])
        /\ st' = {| username := username st; locations := locations st;
                    shareUrl := shareUrl st; error := "Failed to copy URL";
                    isLoading := isLoading st |}
        /\ (isLoading st = false ->
            render p st' = ErrorView "Failed to copy URL"
            /\ shown (render p st') = None)).
Proof.
  split; [done |]. split; [done |].
  eexists. split; [reflexivity |]. split; [reflexivity |].
  intros Hloaded. unfold render. simpl. by rewrite Hloaded.
Qed.

Lemma copyToClipboard_outcomes_witness :
  let st := state_after (shareLocation_then Sample.all_page Sample.xyz)
              (Sample.loaded [Sample.a]) in
  isLoading st = false
  /\ exists st',
       copyToClipboard (Some Threw) st
       = Some (st', [ClipboardWrite "http://localhost:3000?locationId=xyz"])
       /\ render Sample.all_page st' = ErrorView "Failed to copy URL".
Proof.
  intros st. split; [reflexivity |].
  destruct (copyToClipboard_outcomes Sample.all_page st)
    as (_ & _ & st' & Hcopy & Hst & Hview).
  exists st'. split; [exact Hcopy | exact (proj1 (Hview eq_refl))].
Defined.
